(** * chrism-mod-installer: the installer script, embedded and verified

    [src/installer.py] is a linear script: two downloads, two ZIP
    validations and extractions, two relocations of [.jar] files and one
    read-modify-write of a JSON manifest, wrapped in a [try]/[except]/
    [finally] that removes a temporary directory.

    The embedding keeps the script's shape.  Every Python function is a
    computation in a state-and-exception monad over a [world] made of a
    file-system tree and a trace of console lines and external effects.
    The libraries the script calls ([requests], [zipfile], [json], [os],
    [shutil], [tempfile]) are modelled by their effect on that world; what
    the outside decides (the answer of a server, whether bytes form a ZIP
    container, how JSON text is parsed and printed, the home and temporary
    directories) is a parameter of the development. *)

From stdpp Require Import gmap strings list fin_maps.
From Stdlib Require Import ZArith Ascii.

Set Warnings "-register-all".
Local Open Scope string_scope.
Local Open Scope list_scope.

(** ** Strings *)

(** [s.endswith(suf)]: some tail of [s] is [suf], compared byte by byte. *)
Fixpoint endswith (s suf : string) : bool :=
  if String.eqb s suf then true
  else match s with
       | EmptyString => false
       | String _ s' => endswith s' suf
       end.

Fixpoint startswith (s pre : string) : bool :=
  match pre with
  | EmptyString => true
  | String a pre' =>
      match s with
      | EmptyString => false
      | String b s' => if Ascii.eqb a b then startswith s' pre' else false
      end
  end.

(** [k in s] for two Python strings: [k] occurs in [s] as a substring. *)
Fixpoint str_contains (s k : string) : bool :=
  if startswith s k then true
  else match s with
       | EmptyString => false
       | String _ s' => str_contains s' k
       end.

(** ** Exceptions *)

(** The exception classes the script can meet.  The first three are the
    [requests.exceptions.RequestException] family. *)
Inductive exn :=
| ConnectionError
| HTTPError (status : Z)
| ChunkedEncodingError
| BadZipFile
| JSONDecodeError
| FileNotFoundError
| FileExistsError
| NotADirectoryError
| IsADirectoryError
| ShutilError
| KeyError
| TypeError
| ValueError.

Definition is_RequestException (e : exn) : bool :=
  match e with
  | ConnectionError | HTTPError _ | ChunkedEncodingError => true
  | _ => false
  end.

Definition is_BadZipFile (e : exn) : bool :=
  match e with BadZipFile => true | _ => false end.

Definition is_JSONDecodeError (e : exn) : bool :=
  match e with JSONDecodeError => true | _ => false end.

Inductive result (A : Type) :=
| Ok (a : A)
| Raise (e : exn).
Arguments Ok {A} a.
Arguments Raise {A} e.

(** ** JSON documents as Python values *)

(** What [json.load] returns: [None], [bool], [int], [float], [str],
    [list] and [dict].  A [dict] keeps its insertion order, so it is an
    association list; a float is kept by its literal, the script never
    computes with one. *)
Inductive json :=
| JNull
| JBool (b : bool)
| JInt (z : Z)
| JFloat (literal : string)
| JStr (s : string)
| JArr (items : list json)
| JObj (fields : list (string * json)).

Fixpoint dict_get (k : string) (fields : list (string * json)) : option json :=
  match fields with
  | [] => None
  | (k', v) :: rest => if String.eqb k k' then Some v else dict_get k rest
  end.

(** [d[k] = v] on a dict: an existing key keeps its place, a new key goes
    last. *)
Fixpoint dict_set (k : string) (v : json) (fields : list (string * json))
  : list (string * json) :=
  match fields with
  | [] => [(k, v)]
  | (k', v') :: rest =>
      if String.eqb k k' then (k', v) :: rest else (k', v') :: dict_set k v rest
  end.

Definition dict_mem (k : string) (fields : list (string * json)) : bool :=
  match dict_get k fields with Some _ => true | None => false end.

(** [x == k] for a string [k] and any value [x]. *)
Definition eq_str (k : string) (x : json) : bool :=
  match x with JStr s => String.eqb k s | _ => false end.

(** [d[k]] with a string key: [KeyError] on a dict without the key,
    [TypeError] on everything that is not a dict. *)
Definition getitem (d : json) (k : string) : result json :=
  match d with
  | JObj fields =>
      match dict_get k fields with
      | Some v => Ok v
      | None => Raise KeyError
      end
  | _ => Raise TypeError
  end.

(** [k in c] with a string [k]: key membership on a dict, element
    membership on a list, substring test on a string, [TypeError]
    otherwise. *)
Definition contains (c : json) (k : string) : result bool :=
  match c with
  | JObj fields => Ok (dict_mem k fields)
  | JArr items => Ok (existsb (eq_str k) items)
  | JStr s => Ok (str_contains s k)
  | _ => Raise TypeError
  end.

(** [c[k] = v] with a string key: only a dict accepts it. *)
Definition setitem (c : json) (k : string) (v : json) : result json :=
  match c with
  | JObj fields => Ok (JObj (dict_set k v fields))
  | _ => Raise TypeError
  end.

(** ** The file system *)

(** A path is the list of its components below the root; file contents
    are byte strings. *)
Abbreviation path := (list string).
Abbreviation bytes := string.

Inductive node :=
| File (data : bytes)
| Dir (entries : gmap string node).

Fixpoint lookup_path (n : node) (p : path) : option node :=
  match p with
  | [] => Some n
  | x :: p' =>
      match n with
      | Dir es =>
          match es !! x with
          | Some c => lookup_path c p'
          | None => None
          end
      | File _ => None
      end
  end.

(** Put [v] at [p]; the parent of [p] must be a directory. *)
Fixpoint store (n : node) (p : path) (v : node) : result node :=
  match p with
  | [] => Ok v
  | x :: p' =>
      match n with
      | File _ => Raise NotADirectoryError
      | Dir es =>
          match p' with
          | [] => Ok (Dir (<[x := v]> es))
          | _ =>
              match es !! x with
              | None => Raise FileNotFoundError
              | Some c =>
                  match store c p' v with
                  | Ok c' => Ok (Dir (<[x := c']> es))
                  | Raise e => Raise e
                  end
              end
          end
      end
  end.

(** Unlink the entry at [p], with everything below it. *)
Fixpoint remove (n : node) (p : path) : result node :=
  match p with
  | [] => Raise IsADirectoryError
  | x :: p' =>
      match n with
      | File _ => Raise NotADirectoryError
      | Dir es =>
          match es !! x with
          | None => Raise FileNotFoundError
          | Some c =>
              match p' with
              | [] => Ok (Dir (delete x es))
              | _ =>
                  match remove c p' with
                  | Ok c' => Ok (Dir (<[x := c']> es))
                  | Raise e => Raise e
                  end
              end
          end
      end
  end.

(** [os.makedirs(p, exist_ok=True)]: missing directories along [p] are
    created, existing ones are kept; a regular file on the way is an
    error. *)
Fixpoint fs_makedirs (n : node) (p : path) : result node :=
  match n with
  | File _ =>
      Raise (match p with [] => FileExistsError | _ => NotADirectoryError end)
  | Dir es =>
      match p with
      | [] => Ok n
      | x :: p' =>
          match fs_makedirs (default (Dir ∅) (es !! x)) p' with
          | Ok c' => Ok (Dir (<[x := c']> es))
          | Raise e => Raise e
          end
      end
  end.

Definition exists_at (n : node) (p : path) : bool :=
  match lookup_path n p with Some _ => true | None => false end.

Definition isdir_at (n : node) (p : path) : bool :=
  match lookup_path n p with Some (Dir _) => true | _ => false end.

(** [open(p, "w")] / [open(p, "wb")]: creates or truncates the file. *)
Definition fs_create (n : node) (p : path) : result node :=
  if isdir_at n p then Raise IsADirectoryError else store n p (File "").

(** [f.write(chunk)] on the file opened at [p]. *)
Definition fs_append (n : node) (p : path) (chunk : bytes) : result node :=
  match lookup_path n p with
  | Some (File data) => store n p (File (data +:+ chunk))
  | Some (Dir _) => Raise IsADirectoryError
  | None => Raise FileNotFoundError
  end.

(** [os.listdir(p)]: the names of the immediate children. *)
Definition fs_listdir (n : node) (p : path) : result (list string) :=
  match lookup_path n p with
  | Some (Dir es) => Ok (map fst (map_to_list es))
  | Some (File _) => Raise NotADirectoryError
  | None => Raise FileNotFoundError
  end.

(** [os.rename(src, dst)]. *)
Definition fs_rename (n : node) (src dst : path) : result node :=
  match lookup_path n src with
  | None => Raise FileNotFoundError
  | Some v =>
      match remove n src with
      | Ok n1 => store n1 dst v
      | Raise e => Raise e
      end
  end.

Definition basename (p : path) : path :=
  match last p with Some x => [x] | None => [] end.

(** [shutil.move(src, dst)].  When [dst] is an existing directory the
    source is moved inside it, under its own name, and a destination that
    already has an entry of that name makes [shutil.move] raise
    [shutil.Error]; so does moving a directory into itself.  Moving a
    directory onto itself is a rename that changes nothing. *)
Definition fs_move (n : node) (src dst : path) : result node :=
  if isdir_at n dst then
    if bool_decide (src = dst) then Ok n
    else
      let real_dst := dst ++ basename src in
      if exists_at n real_dst then Raise ShutilError
      else if bool_decide (src `prefix_of` real_dst) then Raise ShutilError
      else fs_rename n src real_dst
  else fs_rename n src dst.

(** [shutil.rmtree(p)]. *)
Definition fs_rmtree (n : node) (p : path) : result node :=
  match lookup_path n p with
  | Some (Dir _) => remove n p
  | Some (File _) => Raise NotADirectoryError
  | None => Raise FileNotFoundError
  end.

(** ** The world, and computations on it *)

(** The lines of [console.print].  The text of a line is fixed by its
    constructor and the values interpolated into it. *)
Inductive msg :=
| MsgDownloading (url : string)
| MsgDownloadComplete (dest : path)
| MsgDownloadFailed (e : exn)
| MsgDownloadUnexpected (e : exn)
| MsgValidateUnexpected (e : exn)
| MsgValidating (zip : path)
| MsgExtracting (zip folder : path)
| MsgExtracted (folder : path)
| MsgNotValidZip (zip : path)
| MsgExtractUnexpected (e : exn)
| MsgSearching (folder : path)
| MsgNoJars
| MsgAllMoved (folder : path)
| MsgMoveUnexpected (e : exn)
| MsgUpdating
| MsgCorrupted
| MsgAdded (name : string)
| MsgAlreadyExists (name : string)
| MsgUpdated
| MsgUpdateUnexpected (e : exn)
| MsgNotInstalled
| MsgUsingTemp (dir : path)
| MsgCompleted
| MsgFatal (e : exn)
| MsgCleanedUp (dir : path).

(** What a run does to the outside, in order. *)
Inductive event :=
| Printed (m : msg)
| HttpGet (url : string)
| MkDtemp (dir : path)
| OpenW (file : path)
| RmTree (dir : path)
| Prompted.

Record world := World { fs : node; trace : list event }.

Definition M (A : Type) : Type := world -> result A * world.

Definition ret {A} (a : A) : M A := fun w => (Ok a, w).

Definition raise {A} (e : exn) : M A := fun w => (Raise e, w).

Definition bind {A B} (m : M A) (k : A -> M B) : M B :=
  fun w =>
    match m w with
    | (Ok a, w') => k a w'
    | (Raise e, w') => (Raise e, w')
    end.

Notation "'let!' x ':=' m 'in' k" := (bind m (fun x => k))
  (at level 10, x name, m at level 100, k at level 200,
   format "'let!'  x  ':='  m  'in' '//' k").
Notation "m >> k" := (bind m (fun _ => k))
  (at level 100, k at level 200, right associativity).

(** [try: m  except Exception as e: h e]. *)
Definition try_except {A} (m : M A) (h : exn -> M A) : M A :=
  fun w =>
    match m w with
    | (Ok a, w') => (Ok a, w')
    | (Raise e, w') => h e w'
    end.

(** [try: m  finally: f]: [f] runs on both exits; when [f] raises, that
    exception replaces the outcome of [m]. *)
Definition try_finally {A} (m : M A) (f : M unit) : M A :=
  fun w =>
    match m w with
    | (r, w') =>
        match f w' with
        | (Ok _, w'') => (r, w'')
        | (Raise e, w'') => (Raise e, w'')
        end
    end.

Definition emit (ev : event) : M unit :=
  fun w => (Ok tt, World (fs w) (trace w ++ [ev])).

Definition print (m : msg) : M unit := emit (Printed m).

Definition input : M unit := emit Prompted.

(** A file-system call: on success the tree is replaced, on failure it is
    left as it was. *)
Definition fs_call (f : node -> result node) : M unit :=
  fun w =>
    match f (fs w) with
    | Ok n' => (Ok tt, World n' (trace w))
    | Raise e => (Raise e, w)
    end.

Definition fs_read {A} (f : node -> result A) : M A :=
  fun w => (f (fs w), w).

Definition path_exists (p : path) : M bool :=
  fs_read (fun n => Ok (exists_at n p)).

Definition path_isdir (p : path) : M bool :=
  fs_read (fun n => Ok (isdir_at n p)).

Definition makedirs (p : path) : M unit := fs_call (fun n => fs_makedirs n p).

Definition listdir (p : path) : M (list string) :=
  fs_read (fun n => fs_listdir n p).

Definition shutil_move (src dst : path) : M unit :=
  fs_call (fun n => fs_move n src dst).

Definition rmtree (p : path) : M unit :=
  emit (RmTree p) >> fs_call (fun n => fs_rmtree n p).

Definition open_w (p : path) : M unit :=
  emit (OpenW p) >> fs_call (fun n => fs_create n p).

Definition file_write (p : path) (chunk : bytes) : M unit :=
  fs_call (fun n => fs_append n p chunk).

(** [open(p, "r")] followed by [f.read()]. *)
Definition read_file (p : path) : M bytes :=
  fs_read (fun n =>
    match lookup_path n p with
    | Some (File data) => Ok data
    | Some (Dir _) => Raise IsADirectoryError
    | None => Raise FileNotFoundError
    end).

(** ** HTTP responses and ZIP archives *)

(** The [content-length] header as [int(...)] sees it. *)
Inductive header :=
| NoHeader
| Number (n : Z)
| Malformed.

(** A response of [requests.get(url, stream=True)]: the chunks
    [iter_content] yields, and whether the stream breaks after them. *)
Record response := Response {
  status_code : Z;
  content_length : header;
  body : list bytes;
  stream_breaks : bool
}.

Inductive http_outcome :=
| TransportFailure
| Answer (r : response).

(** [Response.ok] of [requests]: [raise_for_status] raises exactly on a
    4xx or 5xx status. *)
Definition ok (r : response) : bool :=
  negb ((400 <=? status_code r)%Z && (status_code r <? 600)%Z).

(** A member of a ZIP archive: its name in the archive, the path below the
    extraction folder that [zipfile] derives from the name, and what
    extracting it gives. *)
Inductive payload :=
| Data (data : bytes)
| Folder
| Corrupt.

Record member := Member {
  arcname : string;
  target : path;
  content : payload
}.

(** [getinfo(name)]: of several members with one name the last one wins. *)
Definition getinfo (archive : list member) (name : string) : option member :=
  last (filter (fun m => arcname m = name) archive).

(** [for x in l: f x]. *)
Fixpoint for_each {A} (l : list A) (f : A -> M unit) : M unit :=
  match l with
  | [] => ret tt
  | x :: l' => f x >> for_each l' f
  end.

(** [os.mkdir(p)]. *)
Definition mkdir (p : path) : M unit :=
  fs_call (fun n =>
    if exists_at n p then Raise FileExistsError else store n p (Dir ∅)).

(** ** The script *)

(** What the outside decides. *)
Record env := Env {
  (** [json.loads]: [None] stands for [json.JSONDecodeError]. *)
  json_loads : bytes -> option json;
  (** [json.dumps(doc, indent=n)]. *)
  json_dumps : nat -> json -> bytes;
  (** The central directory of a ZIP container; [None] stands for
      [zipfile.BadZipFile]. *)
  zip_open : bytes -> option (list member);
  (** What the network answers to a GET of a URL. *)
  http : string -> http_outcome;
  (** [Path.home()], [tempfile.gettempdir()], and the random name
      [tempfile.mkdtemp] draws. *)
  home : path;
  tempdir : path;
  tmp_name : string
}.

Section Installer.

Variable E : env.

Definition requests_get (url : string) : M response :=
  emit (HttpGet url) >>
  match http E url with
  | TransportFailure => raise ConnectionError
  | Answer r => ret r
  end.

Definition raise_for_status (r : response) : M unit :=
  if ok r then ret tt else raise (HTTPError (status_code r)).

(** [int(response.headers.get('content-length', 0))]. *)
Definition total_size_of (r : response) : M Z :=
  match content_length r with
  | NoHeader => ret 0%Z
  | Number n => ret n
  | Malformed => raise ValueError
  end.

(** [for chunk in response.iter_content(...)]. *)
Definition iter_content (r : response) (f : bytes -> M unit) : M unit :=
  for_each (body r) f >>
  if stream_breaks r then raise ChunkedEncodingError else ret tt.

Definition download_file (url : string) (dest_path : path) : M unit :=
  try_except
    (print (MsgDownloading url) >>
     let! response := requests_get url in
     raise_for_status response >>
     let! total_size := total_size_of response in
     open_w dest_path >>
     iter_content response (fun chunk => file_write dest_path chunk) >>
     print (MsgDownloadComplete dest_path))
    (fun e =>
       if is_RequestException e
       then print (MsgDownloadFailed e) >> raise e
       else print (MsgDownloadUnexpected e) >> raise e).

(** [zipfile.ZipFile(p, "r")]. *)
Definition ZipFile (p : path) : M (list member) :=
  let! data := read_file p in
  match zip_open E data with
  | Some archive => ret archive
  | None => raise BadZipFile
  end.

Definition is_valid_zip (file_path : path) : M bool :=
  try_except
    (let! zip_ref := ZipFile file_path in ret true)
    (fun e =>
       if is_BadZipFile e then ret false
       else print (MsgValidateUnexpected e) >> ret false).

(** [zip_ref.extract(name, folder)]. *)
Definition extract (zip_ref : list member) (name : string) (folder : path)
  : M unit :=
  match getinfo zip_ref name with
  | None => raise KeyError
  | Some m =>
      let targetpath := folder ++ target m in
      let upperdirs := removelast targetpath in
      let! there := path_exists upperdirs in
      (if there then ret tt else makedirs upperdirs) >>
      match content m with
      | Folder =>
          let! isdir := path_isdir targetpath in
          if isdir then ret tt else mkdir targetpath
      | Corrupt => raise BadZipFile
      | Data data => open_w targetpath >> file_write targetpath data
      end
  end.

Definition extract_zip (zip_path extract_folder : path) : M unit :=
  try_except
    (print (MsgValidating zip_path) >>
     let! valid := is_valid_zip zip_path in
     (if valid then ret tt else raise BadZipFile) >>
     print (MsgExtracting zip_path extract_folder) >>
     let! zip_ref := ZipFile zip_path in
     for_each (map arcname zip_ref)
       (fun file => extract zip_ref file extract_folder) >>
     print (MsgExtracted extract_folder))
    (fun e =>
       if is_BadZipFile e
       then print (MsgNotValidZip zip_path) >> raise e
       else print (MsgExtractUnexpected e) >> raise e).

Definition move_jar_files (source_folder destination_folder : path)
  : M unit :=
  try_except
    (print (MsgSearching source_folder) >>
     let! there := path_exists source_folder in
     (if there then ret tt else raise FileNotFoundError) >>
     let! names := listdir source_folder in
     let jar_files := filter (fun file => endswith file ".jar" = true) names in
     match jar_files with
     | [] => print MsgNoJars
     | _ =>
         makedirs destination_folder >>
         for_each jar_files
           (fun jar_file =>
              shutil_move (source_folder ++ [jar_file]) destination_folder) >>
         print (MsgAllMoved destination_folder)
     end)
    (fun e => print (MsgMoveUnexpected e) >> raise e).

(** [json.load(f)] on the file just opened for reading. *)
Definition json_load (data : bytes) : M json :=
  match json_loads E data with
  | Some doc => ret doc
  | None => raise JSONDecodeError
  end.

Definition default_doc : json := JObj [("packs", JObj [])].

Definition record_of (modpack_name mod_loader version : string) : json :=
  JObj [("name", JStr modpack_name);
        ("version", JStr version);
        ("modLoader", JStr mod_loader)].

(** Lift a pure Python operation into the monad. *)
Definition py {A} (r : result A) : M A := fun w => (r, w).

Definition update_modpacks_json
    (modpacks_file : path)
    (modpack_key modpack_name mod_loader version : string) : M unit :=
  try_except
    (print MsgUpdating >>
     let! there := path_exists modpacks_file in
     let! loaded :=
       (if there then
          let! f := read_file modpacks_file in
          try_except (json_load f)
            (fun e =>
               if is_JSONDecodeError e
               then print MsgCorrupted >> ret default_doc
               else raise e)
        else ret default_doc) in
     let! packs := py (getitem loaded "packs") in
     let! present := py (contains packs modpack_key) in
     let! modpacks_data :=
       (if present then
          print (MsgAlreadyExists modpack_name) >> ret loaded
        else
          let! packs' :=
            py (setitem packs modpack_key
                  (record_of modpack_name mod_loader version)) in
          let! doc := py (setitem loaded "packs" packs') in
          print (MsgAdded modpack_name) >> ret doc) in
     open_w modpacks_file >>
     file_write modpacks_file (json_dumps E 4 modpacks_data) >>
     print MsgUpdated)
    (fun e => print (MsgUpdateUnexpected e) >> raise e).

(** [tempfile.mkdtemp()]: a new directory in the temporary directory. *)
Definition mkdtemp : M path :=
  let temp_dir := tempdir E ++ [tmp_name E] in
  let! isdir := path_isdir (tempdir E) in
  (if isdir then ret tt else raise FileNotFoundError) >>
  mkdir temp_dir >>
  emit (MkDtemp temp_dir) >>
  ret temp_dir.

Definition modpack_zip_url : string :=
  "https://next.buettner.tech/s/2e3Y7r6MTCeTCRL/download/mods.zip".
Definition addons_zip_url : string :=
  "https://next.buettner.tech/s/pdXPP5TJepyw6SZ/download/addons.zip".

Definition base_path : path :=
  home E ++ ["AppData"; "Roaming"; ".minecraft"; "labymod-neo"].
Definition modpack_path : path :=
  base_path ++ ["modpacks"; "christmas2024"; "fabric"; "1.21.1"; "mods"].
Definition addons_path : path :=
  base_path ++ ["modpacks"; "christmas2024"; "addons"].
Definition modpacks_file : path :=
  base_path ++ ["modpacks"; "modpacks.json"].

Definition modpack_key : string := "christmas2024".
Definition modpack_name : string := "Christmas 2024".
Definition mod_loader : string := "fabric".
Definition version : string := "1.21.1".

(** The statements of the [try] block of [main] before the manifest is
    touched. *)
Definition install_archives (temp_dir : path) : M unit :=
  let modpack_zip_path := temp_dir ++ ["modpack.zip"] in
  download_file modpack_zip_url modpack_zip_path >>
  let! valid := is_valid_zip modpack_zip_path in
  (if valid then ret tt else raise BadZipFile) >>
  let modpack_folder := temp_dir ++ ["modpack"] in
  makedirs modpack_folder >>
  extract_zip modpack_zip_path modpack_folder >>
  move_jar_files modpack_folder modpack_path >>
  let addons_zip_path := temp_dir ++ ["addons.zip"] in
  download_file addons_zip_url addons_zip_path >>
  let! valid := is_valid_zip addons_zip_path in
  (if valid then ret tt else raise BadZipFile) >>
  let addons_folder := temp_dir ++ ["addons"] in
  makedirs addons_folder >>
  extract_zip addons_zip_path addons_folder >>
  move_jar_files addons_folder addons_path.

Definition main : M unit :=
  let! installed := path_exists base_path in
  if installed then
    let! temp_dir := mkdtemp in
    print (MsgUsingTemp temp_dir) >>
    try_finally
      (try_except
         (install_archives temp_dir >>
          update_modpacks_json modpacks_file
            modpack_key modpack_name mod_loader version >>
          print MsgCompleted)
         (fun e => print (MsgFatal e)))
      (let! there := path_exists temp_dir in
       if there then rmtree temp_dir >> print (MsgCleanedUp temp_dir)
       else ret tt) >>
    input
  else
    print MsgNotInstalled >> input.

End Installer.

Section json_induction.
Variable P : json -> Prop.
Hypothesis Hnull : P JNull.
Hypothesis Hbool : forall b, P (JBool b).
Hypothesis Hint : forall z, P (JInt z).
Hypothesis Hfloat : forall lit, P (JFloat lit).
Hypothesis Hstr : forall s, P (JStr s).
Hypothesis Harr : forall items, Forall P items -> P (JArr items).
Hypothesis Hobj :
  forall fields, Forall (fun kv => P kv.2) fields -> P (JObj fields).

End json_induction.

(** * What the theorems speak about *)

(** ** The manifest *)


(** The document and the record of a pack that the manifest file holds. *)
Definition stored_document (E : env) (n : node) (file : path) : option json :=
  match lookup_path n file with
  | Some (File data) => json_loads E data
  | _ => None
  end.



(** The document [update_modpacks_json] starts from, as a function of the
    file system: the default when the file is absent or does not parse. *)
Definition loaded_document (E : env) (n : node) (file : path) : result json :=
  match lookup_path n file with
  | None => Ok default_doc
  | Some (Dir _) => Raise IsADirectoryError
  | Some (File data) => Ok (default default_doc (json_loads E data))
  end.

(** The console line of the recovery, if any. *)
Definition load_lines (E : env) (n : node) (file : path) : list event :=
  match lookup_path n file with
  | Some (File data) =>
      match json_loads E data with
      | None => [Printed MsgCorrupted]
      | Some _ => []
      end
  | _ => []
  end.

(** Lines 95 to 103 of the script as one pure step on the document. *)
Definition merged_document (loaded : json) (key : string) (record : json)
  : result json :=
  match getitem loaded "packs" with
  | Raise e => Raise e
  | Ok packs =>
      match contains packs key with
      | Raise e => Raise e
      | Ok true => Ok loaded
      | Ok false =>
          match setitem packs key record with
          | Raise e => Raise e
          | Ok packs' => setitem loaded "packs" packs'
          end
      end
  end.

(** The console line that reports which branch was taken. *)
Definition merge_line (loaded : json) (key name : string) : event :=
  match getitem loaded "packs" with
  | Ok packs =>
      match contains packs key with
      | Ok true => Printed (MsgAlreadyExists name)
      | _ => Printed (MsgAdded name)
      end
  | Raise _ => Printed (MsgAdded name)
  end.

(** A document without a usable ["packs"] entry at its top. *)
Definition lacks_packs (doc : json) : bool :=
  match doc with
  | JObj fields => negb (dict_mem "packs" fields)
  | _ => true
  end.

(** The default document with one entry. *)
Definition fresh_document (key : string) (record : json) : json :=
  JObj [("packs", JObj [(key, record)])].

(** ** ZIP validation *)


(** ** The Fetcher *)


(** ** Paths and relocation *)

(** Neither path is at or below the other. *)
Definition apart (p q : path) : Prop := ¬ p `prefix_of` q /\ ¬ q `prefix_of` p.


(** ** The pipeline of [main] as a list of stages *)


Definition run_stages (l : list (M unit)) : M unit := for_each l (fun s => s).

(** Stage [k] of [l] raises [e] after the stages before it ran to their
    end. *)
Definition fails_at (l : list (M unit)) (k : nat) (w : world)
    (e : exn) (w' : world) : Prop :=
  exists s wk,
    l !! k = Some s /\
    run_stages (take k l) w = (Ok tt, wk) /\
    s wk = (Raise e, w').

(** ** Invariants of a run *)

(** Every run of [c] takes the file system along [R]. *)
Definition steps (R : node -> node -> Prop) {A} (c : M A) : Prop :=
  forall w, R (fs w) (fs (c w).2).


Definition same_at (p : path) (n n' : node) : Prop :=
  lookup_path n' p = lookup_path n p.

(** The [try]/[except] of [main], without its [finally]. *)
Definition try_body (E : env) (t : path) : M unit :=
  try_except
    (install_archives E t >>
     update_modpacks_json E (modpacks_file E)
       modpack_key modpack_name mod_loader version >>
     print MsgCompleted)
    (fun e => print (MsgFatal e)).

(** ** What a download leaves *)


(** ** What a failed run leaves *)


(** The [finally] block of [main]. *)
Definition cleanup (temp_dir : path) : M unit :=
  let! there := path_exists temp_dir in
  if there then rmtree temp_dir >> print (MsgCleanedUp temp_dir)
  else ret tt.

(** ** Archives that unpack into a tree *)






(** ** A run in which everything goes well *)




(** [x] is a file at the top of the archive, with a name that ends in
    [.jar] and the bytes [d]. *)
Definition jar_file (archive : list member) (x : string) (d : bytes) : Prop :=
  endswith x ".jar" = true /\
  exists m, m ∈ archive /\ target m = [x] /\ content m = Data d.


(** A reference codec: documents in a small postfix notation. *)
Module RefCodec.

Fixpoint dump_pos (p : positive) : string :=
  match p with
  | xH => "zi"
  | xO p' => dump_pos p' +:+ "d"
  | xI p' => dump_pos p' +:+ "di"
  end.

Definition dump_int (z : Z) : string :=
  match z with
  | Z0 => "z"
  | Zpos p => dump_pos p
  | Zneg p => dump_pos p +:+ "-"
  end.

Fixpoint dump_chars (s : string) : string :=
  match s with
  | EmptyString => EmptyString
  | String c s' => String "'"%char (String c (dump_chars s'))
  end.

Definition dump_str (s : string) : string := String "s"%char (dump_chars s).

Fixpoint dumps (doc : json) : string :=
  match doc with
  | JNull => "n"
  | JBool true => "t"
  | JBool false => "f"
  | JInt z => dump_int z
  | JFloat lit => dump_str lit +:+ "r"
  | JStr s => dump_str s
  | JArr items =>
      String "["%char
        ((fix go (l : list json) : string :=
            match l with
            | [] => EmptyString
            | x :: l' => dumps x +:+ String ","%char (go l')
            end) items)
  | JObj fields =>
      String "{"%char
        ((fix go (l : list (string * json)) : string :=
            match l with
            | [] => EmptyString
            | (k, v) :: l' => dump_str k +:+ dumps v +:+ String ":"%char (go l')
            end) fields)
  end.

(** One token of the notation, applied to the stack of documents read so
    far. *)
Definition token (c : Ascii.ascii) (stk : list json) : option (list json) :=
  if Ascii.eqb c "n"%char then Some (JNull :: stk)
  else if Ascii.eqb c "t"%char then Some (JBool true :: stk)
  else if Ascii.eqb c "f"%char then Some (JBool false :: stk)
  else if Ascii.eqb c "z"%char then Some (JInt 0 :: stk)
  else if Ascii.eqb c "s"%char then Some (JStr "" :: stk)
  else if Ascii.eqb c "["%char then Some (JArr [] :: stk)
  else if Ascii.eqb c "{"%char then Some (JObj [] :: stk)
  else if Ascii.eqb c "d"%char then
    match stk with JInt z :: stk' => Some (JInt (2 * z) :: stk') | _ => None end
  else if Ascii.eqb c "i"%char then
    match stk with JInt z :: stk' => Some (JInt (z + 1) :: stk') | _ => None end
  else if Ascii.eqb c "-"%char then
    match stk with JInt z :: stk' => Some (JInt (- z) :: stk') | _ => None end
  else if Ascii.eqb c "r"%char then
    match stk with JStr s :: stk' => Some (JFloat s :: stk') | _ => None end
  else if Ascii.eqb c ","%char then
    match stk with
    | x :: JArr l :: stk' => Some (JArr (l ++ [x]) :: stk')
    | _ => None
    end
  else if Ascii.eqb c ":"%char then
    match stk with
    | v :: JStr k :: JObj l :: stk' => Some (JObj (l ++ [(k, v)]) :: stk')
    | _ => None
    end
  else None.

Fixpoint run (s : string) (stk : list json) : option (list json) :=
  match s with
  | EmptyString => Some stk
  | String c s' =>
      if Ascii.eqb c "'"%char then
        match s', stk with
        | String a s'', JStr acc :: stk' =>
            run s'' (JStr (acc +:+ String a EmptyString) :: stk')
        | _, _ => None
        end
      else
        match token c stk with
        | Some stk' => run s' stk'
        | None => None
        end
  end.

Definition loads (s : string) : option json :=
  match run s [] with
  | Some [doc] => Some doc
  | _ => None
  end.

End RefCodec.

(** * A reference environment

    One concrete outside world, used to run the script on examples: the
    reference codec for JSON, a ZIP reader that accepts what starts with
    the two magic bytes, and a server that answers 404 for the modpack. *)

Definition ref_http (url : string) : http_outcome :=
  if String.eqb url modpack_zip_url
  then Answer (Response 404 NoHeader [] false)
  else TransportFailure.

Definition ref_zip_open (data : bytes) : option (list member) :=
  if startswith data "PK" then Some [] else None.

Definition ref_env : env :=
  {| json_loads := RefCodec.loads;
     json_dumps := fun _ => RefCodec.dumps;
     zip_open := ref_zip_open;
     http := ref_http;
     home := ["Users"; "me"];
     tempdir := ["Temp"];
     tmp_name := "tmp8k2x" |}.

Definition dir_of (entries : list (string * node)) : node :=
  Dir (list_to_map entries).

(** A disk with the application installed, [inside] being the content of
    its directory, and an empty temporary directory. *)
Definition installed (inside : list (string * node)) : node :=
  dir_of
    [("Users",
      dir_of [("me",
        dir_of [("AppData",
          dir_of [("Roaming",
            dir_of [(".minecraft",
              dir_of [("labymod-neo", dir_of inside)])])])])]);
     ("Temp", dir_of [])].

Definition fresh_install : world := World (installed []) [].

Definition with_modpacks (files : list (string * node)) : world :=
  World (installed [("modpacks", dir_of files)]) [].

Definition empty_disk : world := World (dir_of []) [].

Definition registered_doc : json :=
  fresh_document modpack_key (record_of modpack_name mod_loader version).

(** A run that gets as far as the first download. *)
Definition demo_temp : path := ["Temp"; "tmp8k2x"].




(** A source with two jars, a text file, a file with the suffix in upper
    case and a nested jar; and the same source next to a destination that
    already holds one of the names. *)
Definition demo_source : gmap string node :=
  list_to_map
    [("a.jar", File "A"); ("b.jar", File "B"); ("notes.txt", File "N");
     ("UPPER.JAR", File "U"); ("lib", dir_of [("c.jar", File "C")])].


Definition demo_clash : world :=
  World (dir_of [("in", Dir demo_source);
                 ("out", dir_of [("a.jar", File "old")])]) [].

(** A destination behind a regular file, and a destination inside a
    directory of the source whose name ends in [.jar]. *)
Definition demo_blocked : world :=
  World (dir_of [("in", Dir demo_source); ("out", File "in the way")]) [].

Definition demo_nested : world :=
  World (dir_of [("in", dir_of [("pack.jar", dir_of [])])]) [].

(** A second outside world, in which both downloads succeed and serve one
    archive: a jar at the top, and a folder with a text file. *)
Definition served_zip : bytes := "PK-jars".

Definition happy_http (url : string) : http_outcome :=
  Answer (Response 200 (Number 7) ["PK-"; "jars"] false).

Definition happy_zip_open (data : bytes) : option (list member) :=
  if String.eqb data served_zip
  then Some [Member "foo.jar" ["foo.jar"] (Data "JAR");
             Member "docs/" ["docs"] Folder;
             Member "docs/readme.txt" ["docs"; "readme.txt"] (Data "hi")]
  else None.

Definition happy_env : env :=
  {| json_loads := RefCodec.loads;
     json_dumps := fun _ => RefCodec.dumps;
     zip_open := happy_zip_open;
     http := happy_http;
     home := ["Users"; "me"];
     tempdir := ["Temp"];
     tmp_name := "tmp8k2x" |}.

(** The same server with an archive whose only jar lies in a folder. *)
Definition nested_zip_open (data : bytes) : option (list member) :=
  if String.eqb data served_zip
  then Some [Member "mods/" ["mods"] Folder;
             Member "mods/foo.jar" ["mods"; "foo.jar"] (Data "JAR")]
  else None.

Definition nested_env : env :=
  {| json_loads := RefCodec.loads;
     json_dumps := fun _ => RefCodec.dumps;
     zip_open := nested_zip_open;
     http := happy_http;
     home := ["Users"; "me"];
     tempdir := ["Temp"];
     tmp_name := "tmp8k2x" |}.

Definition nested_run : result unit * world := main nested_env fresh_install.

Definition first_run : result unit * world := main happy_env fresh_install.

Definition second_run : result unit * world := main happy_env first_run.2.

(** ** More outside worlds and disks for the examples *)





Definition list_doc : json := JObj [("packs", JArr [JStr "summer2024"])].

Definition with_manifest (doc : json) : world :=
  with_modpacks [("modpacks.json", File (RefCodec.dumps doc))].









(** * Proof automation *)

(** Unfold the monad and the primitive reads of the world. *)
Ltac run :=
  unfold bind, ret, raise, try_except, try_finally, print, input, emit, py,
    fs_read, fs_call, path_exists, path_isdir; simpl.

(** * Proofs *)

(** ** Strings *)

(** [endswith] is the suffix relation on byte strings. *)
Lemma endswith_spec (s suf : string) :
  endswith s suf = true <-> exists pre, s = pre +:+ suf.
Proof.
  split.
  - induction s as [|c s IH]; cbn [endswith].
    + destruct (String.eqb "" suf) eqn:He; [|done].
      apply String.eqb_eq in He. subst. by exists "".
    + destruct (String.eqb (String c s) suf) eqn:He.
      * apply String.eqb_eq in He. subst. by exists "".
      * intros H. destruct (IH H) as [pre ->]. by exists (String c pre).
  - intros [pre ->]. induction pre as [|c pre IH].
    + change ("" +:+ suf) with suf.
      assert (He : String.eqb suf suf = true) by (by apply String.eqb_eq).
      destruct suf; cbn [endswith]; by rewrite He.
    + change (String c pre +:+ suf) with (String c (pre +:+ suf)).
      cbn [endswith]. rewrite IH. by destruct (String.eqb _ suf).
Qed.

(** ** The file-system tree *)

Section FileSystem.
Implicit Types (n c v : node) (p q : path).


Lemma lookup_store n p v n' :
  store n p v = Ok n' -> lookup_path n' p = Some v.
Proof.
  revert n n'. induction p as [|x p IH]; intros n n' H; simpl in *.
  - by inversion H.
  - destruct n as [|es]; [done|]. destruct p as [|y p].
    + inversion H; subst. simpl. by rewrite lookup_insert_eq.
    + destruct (es !! x) as [c|] eqn:Hx; [|done].
      destruct (store c (y :: p) v) as [c'|] eqn:Hs; [|done].
      inversion H; subst. cbn [lookup_path]. rewrite lookup_insert_eq. by apply (IH c).
Qed.

Lemma store_store n p v v' n1 :
  store n p v = Ok n1 -> store n1 p v' = store n p v'.
Proof.
  revert n n1. induction p as [|x p IH]; intros n n1 H; simpl in *; [done|].
  destruct n as [|es]; [done|]. destruct p as [|y p].
  - inversion H; subst. by rewrite insert_insert_eq.
  - destruct (es !! x) as [c|] eqn:Hx; [|done].
    destruct (store c (y :: p) v) as [c'|] eqn:Hs; [|done].
    inversion H; subst. rewrite lookup_insert_eq. rewrite (IH _ _ Hs).
    destruct (store c (y :: p) v'); [|done]. by rewrite insert_insert_eq.
Qed.


Lemma store_frame n q v n' p :
  store n q v = Ok n' -> ¬ q `prefix_of` p -> ¬ p `prefix_of` q ->
  lookup_path n' p = lookup_path n p.
Proof.
  revert n n' p. induction q as [|x q IH]; intros n n' p H Hqp Hpq.
  - destruct Hqp. apply prefix_nil.
  - destruct p as [|y p]; [destruct Hpq; apply prefix_nil|].
    simpl in H. destruct n as [|es]; [done|].
    destruct (decide (x = y)) as [->|Hne].
    + assert (¬ q `prefix_of` p) by (intros ?; apply Hqp; by apply prefix_cons).
      assert (¬ p `prefix_of` q) by (intros ?; apply Hpq; by apply prefix_cons).
      destruct q as [|z q]; [exfalso; apply H0, prefix_nil|].
      destruct (es !! y) as [c|] eqn:Hx; [|done].
      destruct (store c (z :: q) v) as [c'|] eqn:Hs; [|done].
      inversion H; subst. cbn [lookup_path]. rewrite lookup_insert_eq, Hx.
      by apply (IH c).
    + assert (lookup_path n' (y :: p) = lookup_path (Dir es) (y :: p)); [|done].
      destruct q as [|z q].
      * inversion H; subst. cbn [lookup_path]. by rewrite lookup_insert_ne.
      * destruct (es !! x) as [c|] eqn:Hx; [|done].
        destruct (store c (z :: q) v) as [c'|] eqn:Hs; [|done].
        inversion H; subst. cbn [lookup_path]. by rewrite lookup_insert_ne.
Qed.


Lemma remove_cons es x y p :
  remove (Dir es) (x :: y :: p) =
  match es !! x with
  | None => Raise FileNotFoundError
  | Some c =>
      match remove c (y :: p) with
      | Ok c' => Ok (Dir (<[x := c']> es))
      | Raise e => Raise e
      end
  end.
Proof. simpl. by destruct (es !! x). Qed.


Lemma isdir_at_cons es x p :
  isdir_at (Dir es) (x :: p) =
  match es !! x with Some c => isdir_at c p | None => false end.
Proof. unfold isdir_at. simpl. by destruct (es !! x). Qed.





Lemma remove_frame n q n' p :
  remove n q = Ok n' -> ¬ q `prefix_of` p -> ¬ p `prefix_of` q ->
  lookup_path n' p = lookup_path n p.
Proof.
  revert n n' p. induction q as [|x q IH]; intros n n' p H Hqp Hpq; [done|].
  destruct p as [|y p]; [destruct Hpq; apply prefix_nil|].
  destruct n as [|es]; [done|]. destruct q as [|z q].
  - simpl in H. destruct (es !! x); [|done]. inversion H; subst.
    cbn [lookup_path]. rewrite lookup_delete_ne; [done|]. intros ->.
    apply Hqp, prefix_cons, prefix_nil.
  - rewrite remove_cons in H. destruct (es !! x) as [c|] eqn:Hx; [|done].
    destruct (remove c (z :: q)) as [c'|] eqn:Hr; [|done].
    inversion H; subst. cbn [lookup_path].
    destruct (decide (x = y)) as [->|Hne].
    + rewrite lookup_insert_eq, Hx. apply (IH c); [done|..].
      * intros ?. apply Hqp. by apply prefix_cons.
      * intros ?. apply Hpq. by apply prefix_cons.
    + by rewrite lookup_insert_ne.
Qed.


(** Removing an entry creates nothing. *)
Lemma remove_exists n q n' p :
  remove n q = Ok n' -> exists_at n' p = true -> exists_at n p = true.
Proof.
  unfold exists_at.
  revert n n' p. induction q as [|x q IH]; intros n n' p H Hd; [done|].
  destruct n as [|es]; [done|]. destruct p as [|y p]; [done|].
  destruct q as [|z q].
  - simpl in H. destruct (es !! x); [|done]. inversion H; subst.
    simpl in *. destruct (decide (x = y)) as [->|Hne].
    + by rewrite lookup_delete_eq in Hd.
    + by rewrite lookup_delete_ne in Hd.
  - rewrite remove_cons in H. destruct (es !! x) as [c|] eqn:Hx; [|done].
    destruct (remove c (z :: q)) as [c'|] eqn:Hr; [|done].
    inversion H; subst. cbn [lookup_path] in *.
    destruct (decide (x = y)) as [->|Hne].
    + rewrite lookup_insert_eq in Hd. rewrite Hx. by apply (IH c c').
    + by rewrite lookup_insert_ne in Hd.
Qed.

Lemma remove_isdir_inv n q n' p :
  remove n q = Ok n' -> isdir_at n' p = true -> isdir_at n p = true.
Proof.
  revert n n' p. induction q as [|x q IH]; intros n n' p H Hd; [done|].
  destruct n as [|es]; [done|]. destruct p as [|y p]; [done|].
  destruct q as [|z q].
  - simpl in H. destruct (es !! x); [|done]. inversion H; subst.
    rewrite isdir_at_cons in Hd |- *. destruct (decide (x = y)) as [->|Hne].
    + by rewrite lookup_delete_eq in Hd.
    + by rewrite lookup_delete_ne in Hd.
  - rewrite remove_cons in H. destruct (es !! x) as [c|] eqn:Hx; [|done].
    destruct (remove c (z :: q)) as [c'|] eqn:Hr; [|done].
    inversion H; subst. rewrite isdir_at_cons in Hd |- *.
    destruct (decide (x = y)) as [->|Hne].
    + rewrite lookup_insert_eq in Hd. rewrite Hx. by apply (IH c c').
    + by rewrite lookup_insert_ne in Hd.
Qed.


Lemma makedirs_frame n q n' p :
  fs_makedirs n q = Ok n' -> ¬ p `prefix_of` q ->
  lookup_path n' p = lookup_path n p.
Proof.
  revert n n' p. induction q as [|x q IH]; intros n n' p H Hpq.
  - destruct n; [done|]. simpl in H. by inversion H.
  - destruct n as [|es]; [done|]. simpl in H.
    destruct (fs_makedirs _ q) as [c'|] eqn:Hm; [|done].
    inversion H; subst. destruct p as [|y p]; [destruct Hpq; apply prefix_nil|].
    cbn [lookup_path]. destruct (decide (x = y)) as [->|Hne].
    + rewrite lookup_insert_eq.
      assert (Hp : ¬ p `prefix_of` q) by (intros ?; apply Hpq; by apply prefix_cons).
      rewrite (IH _ _ _ Hm Hp). destruct (es !! y) as [c|] eqn:Hy; [done|].
      simpl. destruct p as [|z p]; [destruct Hp; apply prefix_nil|].
      simpl. by rewrite lookup_empty.
    + by rewrite lookup_insert_ne.
Qed.



Lemma store_raise_indep n p v v' e :
  store n p v = Raise e -> store n p v' = Raise e.
Proof.
  revert n. induction p as [|x p IH]; intros n H; simpl in *; [done|].
  destruct n as [|es]; [done|]. destruct p as [|y p]; [done|].
  destruct (es !! x) as [c|] eqn:Hx; [|done].
  destruct (store c (y :: p) v) as [c'|e'] eqn:Hs; [done|].
  inversion H; subst. by rewrite (IH _ Hs).
Qed.

Lemma create_append n p s :
  match fs_create n p with
  | Ok n1 => fs_append n1 p s
  | Raise e => Raise e
  end = if isdir_at n p then Raise IsADirectoryError else store n p (File s).
Proof.
  unfold fs_create, fs_append. destruct (isdir_at n p); [done|].
  destruct (store n p (File "")) as [n1|e] eqn:Hs.
  - rewrite (lookup_store _ _ _ _ Hs). by rewrite (store_store _ _ _ _ _ Hs).
  - by rewrite (store_raise_indep _ _ _ (File s) _ Hs).
Qed.



End FileSystem.

(** ** Paths *)


Lemma apart_app p q r : apart p q -> apart (p ++ r) q.
Proof.
  intros [Hpq Hqp]. split.
  - intros H. apply Hpq. etrans; [|done]. by apply prefix_app_r.
  - intros H. destruct (prefix_weak_total p q (p ++ r)); auto.
    by apply prefix_app_r.
Qed.


Lemma last_snoc_basename (p : path) x : basename (p ++ [x]) = [x].
Proof. unfold basename. by rewrite last_snoc. Qed.

Lemma exists_at_false n p : exists_at n p = false <-> lookup_path n p = None.
Proof. unfold exists_at. by destruct (lookup_path n p). Qed.


Section Paths.
Implicit Types (n : node) (p q : path).





End Paths.

(** ** Writing a file *)

(** [open(p, "w")] then one [write]: the file holds what was written. *)
Lemma write_run p s w :
  isdir_at (fs w) p = false ->
  (open_w p >> file_write p s) w =
  match store (fs w) p (File s) with
  | Ok n' => (Ok tt, World n' (trace w ++ [OpenW p]))
  | Raise e => (Raise e, World (fs w) (trace w ++ [OpenW p]))
  end.
Proof.
  intros Hd. pose proof (create_append (fs w) p s) as Hca. rewrite Hd in Hca.
  unfold open_w, file_write. run.
  destruct (fs_create (fs w) p) as [n1|e] eqn:Hc; simpl.
  - rewrite Hca. destruct (store (fs w) p (File s)) as [n'|e] eqn:Hs; [done|].
    apply (store_raise_indep _ _ _ (File "")) in Hs.
    unfold fs_create in Hc. rewrite Hd in Hc. congruence.
  - by rewrite <- Hca.
Qed.

(** ** Dictionaries and the merge step *)





Lemma merged_default key record :
  merged_document default_doc key record =
  Ok (JObj [("packs", JObj [(key, record)])]).
Proof. done. Qed.

(** ** The Manifest Updater *)

Section Manifest.
Variable E : env.
Implicit Types (w : world) (file : path) (key name loader version : string).

Lemma update_exact file key name loader version w :
  update_modpacks_json E file key name loader version w =
  match loaded_document E (fs w) file with
  | Raise e =>
      (Raise e,
       World (fs w)
         (trace w ++ [Printed MsgUpdating; Printed (MsgUpdateUnexpected e)]))
  | Ok loaded =>
      let t1 := trace w ++ Printed MsgUpdating :: load_lines E (fs w) file in
      match merged_document loaded key (record_of name loader version) with
      | Raise e => (Raise e, World (fs w) (t1 ++ [Printed (MsgUpdateUnexpected e)]))
      | Ok doc =>
          let t2 := t1 ++ [merge_line loaded key name; OpenW file] in
          match store (fs w) file (File (json_dumps E 4 doc)) with
          | Ok n' => (Ok tt, World n' (t2 ++ [Printed MsgUpdated]))
          | Raise e =>
              (Raise e, World (fs w) (t2 ++ [Printed (MsgUpdateUnexpected e)]))
          end
      end
  end.
Proof.
  unfold update_modpacks_json.
  set (K := fun modpacks_data : json =>
              bind (open_w file) (fun _ =>
              bind (file_write file (json_dumps E 4 modpacks_data)) (fun _ =>
              print MsgUpdated))).
  assert (HK : forall doc w0, isdir_at (fs w0) file = false ->
    K doc w0 =
    match store (fs w0) file (File (json_dumps E 4 doc)) with
    | Ok n' => (Ok tt, World n' (trace w0 ++ [OpenW file; Printed MsgUpdated]))
    | Raise e => (Raise e, World (fs w0) (trace w0 ++ [OpenW file]))
    end).
  { intros doc w0 Hd. pose proof (write_run file (json_dumps E 4 doc) w0 Hd) as Hw.
    unfold K. unfold bind in Hw |- *.
    destruct (store (fs w0) file _) as [n'|e'];
      destruct (open_w file w0) as [[[]|e] w1]; try done;
      destruct (file_write file _ w1) as [[[]|e] w2]; try done.
    inversion Hw; subst. unfold print, emit. simpl. by rewrite <- app_assoc. }
  clearbody K.
  unfold loaded_document, load_lines, merged_document, merge_line, read_file,
    json_load.
  run. unfold exists_at.
  destruct (lookup_path (fs w) file) as [[data|es]|] eqn:Hl; simpl;
    rewrite ?Hl; simpl; [destruct (json_loads E data) as [loaded|]; simpl| |].
  all: repeat match goal with
       | |- context [match getitem ?a ?b with _ => _ end] =>
           destruct (getitem a b); simpl
       | |- context [match contains ?a ?b with _ => _ end] =>
           destruct (contains a b) as [[|]|]; simpl
       | |- context [match setitem ?a ?b ?c with _ => _ end] =>
           destruct (setitem a b c); simpl
       end.
  all: rewrite ?HK by (unfold isdir_at; simpl; by rewrite Hl); simpl.
  all: repeat match goal with
       | |- context [store ?a ?b ?c] => destruct (store a b c); simpl
       end.
  all: rewrite <- ?app_assoc; simpl; try done.
Qed.

Lemma update_fs file key name loader version w :
  fs (update_modpacks_json E file key name loader version w).2 =
  match loaded_document E (fs w) file with
  | Raise _ => fs w
  | Ok loaded =>
      match merged_document loaded key (record_of name loader version) with
      | Raise _ => fs w
      | Ok doc =>
          match store (fs w) file (File (json_dumps E 4 doc)) with
          | Ok n' => n'
          | Raise _ => fs w
          end
      end
  end.
Proof.
  rewrite update_exact. destruct (loaded_document E (fs w) file); [|done].
  simpl. destruct (merged_document _ _ _); [|done].
  by destruct (store _ _ _).
Qed.





(** Claim C10.  A manifest file that parses as JSON but has no ["packs"]
    key at its top (an object without the key, or a document that is not
    an object) makes [update_modpacks_json] raise at the membership check,
    [KeyError] or [TypeError]: no recovery line, no write, the file system
    as it was, the exception reported and raised again. *)
Theorem manifest_without_packs_is_fatal
    file key name loader version w data doc :
  lookup_path (fs w) file = Some (File data) ->
  json_loads E data = Some doc ->
  lacks_packs doc = true ->
  exists e,
    update_modpacks_json E file key name loader version w =
      (Raise e,
       World (fs w)
         (trace w ++ [Printed MsgUpdating; Printed (MsgUpdateUnexpected e)])) /\
    getitem doc "packs" = Raise e /\
    (e = KeyError \/ e = TypeError).
Proof.
  intros Hl Hj Hp. rewrite update_exact. unfold loaded_document, load_lines.
  rewrite Hl, Hj. simpl. unfold merged_document.
  destruct doc as [| | | | | |fields]; simpl in *;
    try (exists TypeError; by rewrite <- app_assoc; auto).
  unfold dict_mem in Hp. destruct (dict_get "packs" fields); [done|].
  exists KeyError. rewrite <- app_assoc. auto.
Qed.
End Manifest.

(** ** Pre-flight check, Archive Validator, Fetcher, missing source *)

Section Checks.
Variable E : env.

(** Claim C5.  When the installation directory does not exist, [main]
    prints one line, waits for the user and returns: the file system is
    untouched and the trace gains neither a [MkDtemp] nor an [HttpGet]. *)
Theorem prerequisite_missing_stops (w : world) :
  exists_at (fs w) (base_path E) = false ->
  main E w =
    (Ok tt, World (fs w) (trace w ++ [Printed MsgNotInstalled; Prompted])).
Proof.
  intros H. unfold main. run. rewrite H. simpl. by rewrite <- app_assoc.
Qed.




End Checks.

(** ** The Relocator *)






Section Relocator.

End Relocator.

(** ** Invariants of the stages *)

Section Steps.
Variable R : node -> node -> Prop.
Hypothesis R_refl : forall n, R n n.
Hypothesis R_trans : forall a b c, R a b -> R b c -> R a c.

Lemma steps_ret {A} (a : A) : steps R (ret a).
Proof. intros w. apply R_refl. Qed.

Lemma steps_raise {A} e : steps R (@raise A e).
Proof. intros w. apply R_refl. Qed.

Lemma steps_py {A} (r : result A) : steps R (py r).
Proof. intros w. apply R_refl. Qed.

Lemma steps_emit ev : steps R (emit ev).
Proof. intros w. apply R_refl. Qed.

Lemma steps_print m : steps R (print m).
Proof. apply steps_emit. Qed.

Lemma steps_fs_read {A} (f : node -> result A) : steps R (fs_read f).
Proof. intros w. apply R_refl. Qed.

Lemma steps_bind {A B} (m : M A) (k : A -> M B) :
  steps R m -> (forall a, steps R (k a)) -> steps R (bind m k).
Proof.
  intros Hm Hk w. unfold bind. specialize (Hm w).
  destruct (m w) as [[a|e] w1]; [|done].
  eapply R_trans; [exact Hm|apply Hk].
Qed.

Lemma steps_try_except {A} (m : M A) h :
  steps R m -> (forall e, steps R (h e)) -> steps R (try_except m h).
Proof.
  intros Hm Hh w. unfold try_except. specialize (Hm w).
  destruct (m w) as [[a|e] w1]; [done|].
  eapply R_trans; [exact Hm|apply Hh].
Qed.

Lemma steps_try_finally {A} (m : M A) f :
  steps R m -> steps R f -> steps R (try_finally m f).
Proof.
  intros Hm Hf w. unfold try_finally. specialize (Hm w).
  destruct (m w) as [r w1]. specialize (Hf w1).
  destruct (f w1) as [[?|e] w2]; by eapply R_trans.
Qed.

Lemma steps_for_each {A} (l : list A) f :
  (forall x, x ∈ l -> steps R (f x)) -> steps R (for_each l f).
Proof.
  induction l as [|x l IH]; intros H; simpl; [apply steps_ret|].
  apply steps_bind; [apply H; by left|]. intros _. apply IH.
  intros y Hy. apply H. by right.
Qed.

Lemma steps_fs_call f :
  (forall n n', f n = Ok n' -> R n n') -> steps R (fs_call f).
Proof.
  intros H w. unfold fs_call. destruct (f (fs w)) eqn:Hf; simpl; auto.
Qed.

Lemma steps_if {A} (b : bool) (m1 m2 : M A) :
  steps R m1 -> steps R m2 -> steps R (if b then m1 else m2).
Proof. by destruct b. Qed.

(** Which paths may be written, removed, and created as directories. *)
Variables (W X D : path -> Prop).
Hypothesis W_ok : forall q n v n',
  W q -> isdir_at n q = false -> store n q v = Ok n' -> R n n'.
Hypothesis X_ok : forall q n n', X q -> remove n q = Ok n' -> R n n'.
Hypothesis D_ok : forall q n n', D q -> fs_makedirs n q = Ok n' -> R n n'.

Lemma steps_open_w p : W p -> steps R (open_w p).
Proof.
  intros Hp. apply steps_bind; [apply steps_emit|]. intros _.
  apply steps_fs_call. intros n n'. unfold fs_create.
  destruct (isdir_at n p) eqn:Hd; [done|]. by apply W_ok.
Qed.

Lemma steps_file_write p chunk : W p -> steps R (file_write p chunk).
Proof.
  intros Hp. apply steps_fs_call. intros n n'. unfold fs_append.
  destruct (lookup_path n p) as [[d|]|] eqn:Hl; try done.
  apply W_ok; [done|]. unfold isdir_at. by rewrite Hl.
Qed.

Lemma steps_mkdir p : W p -> steps R (mkdir p).
Proof.
  intros Hp. apply steps_fs_call. intros n n'.
  destruct (exists_at n p) eqn:He; [done|]. apply W_ok; [done|].
  unfold isdir_at. apply exists_at_false in He. by rewrite He.
Qed.

Lemma steps_makedirs p : D p -> steps R (makedirs p).
Proof. intros Hp. apply steps_fs_call. intros n n'. by apply D_ok. Qed.

Lemma rename_steps n src dst n' :
  X src -> W dst -> isdir_at n dst = false ->
  fs_rename n src dst = Ok n' -> R n n'.
Proof.
  intros Hx Hw Hd. unfold fs_rename.
  destruct (lookup_path n src) as [v|]; [|done].
  destruct (remove n src) as [n1|] eqn:Hr; [|done]. intros Hs.
  eapply R_trans; [by eapply X_ok|]. eapply W_ok; [done| |done].
  destruct (isdir_at n1 dst) eqn:Hd1; [|done].
  apply (remove_isdir_inv _ _ _ _ Hr) in Hd1. congruence.
Qed.

Lemma steps_shutil_move src dst :
  X src -> W dst -> W (dst ++ basename src) -> steps R (shutil_move src dst).
Proof.
  intros Hx Hw Hw'. apply steps_fs_call. intros n n'. unfold fs_move.
  destruct (isdir_at n dst) eqn:Hd.
  - case_bool_decide; [by intros [= <-]|].
    destruct (exists_at n (dst ++ basename src)) eqn:He; [done|].
    case_bool_decide; [done|]. apply rename_steps; [done..|].
    unfold isdir_at. apply exists_at_false in He. by rewrite He.
  - by apply rename_steps.
Qed.

Lemma steps_rmtree p : X p -> steps R (rmtree p).
Proof.
  intros Hp. apply steps_bind; [apply steps_emit|]. intros _.
  apply steps_fs_call. intros n n'. unfold fs_rmtree.
  destruct (lookup_path n p) as [[|]|]; try done. by apply X_ok.
Qed.

Variable E : env.

Lemma steps_download_file url dest : W dest -> steps R (download_file E url dest).
Proof.
  intros Hw. unfold download_file. apply steps_try_except.
  - apply steps_bind; [apply steps_print|]; intros _.
    apply steps_bind.
    { unfold requests_get. apply steps_bind; [apply steps_emit|]; intros _.
      destruct (http E url); [apply steps_raise|apply steps_ret]. }
    intros r. apply steps_bind.
    { unfold raise_for_status. apply steps_if; [apply steps_ret|apply steps_raise]. }
    intros _. apply steps_bind.
    { unfold total_size_of.
      destruct (content_length r); try apply steps_ret; apply steps_raise. }
    intros _. apply steps_bind; [by apply steps_open_w|]; intros _.
    apply steps_bind; [|intros _; apply steps_print].
    unfold iter_content. apply steps_bind.
    + apply steps_for_each. intros ??. by apply steps_file_write.
    + intros _. apply steps_if; [apply steps_raise|apply steps_ret].
  - intros e. apply steps_if; (apply steps_bind; [apply steps_print|]);
      intros _; apply steps_raise.
Qed.

Lemma steps_ZipFile p : steps R (ZipFile E p).
Proof.
  unfold ZipFile. apply steps_bind; [apply steps_fs_read|]. intros data.
  destruct (zip_open E data); [apply steps_ret|apply steps_raise].
Qed.

Lemma steps_is_valid_zip p : steps R (is_valid_zip E p).
Proof.
  unfold is_valid_zip. apply steps_try_except.
  - apply steps_bind; [apply steps_ZipFile|]. intros _. apply steps_ret.
  - intros e. apply steps_if; [apply steps_ret|].
    apply steps_bind; [apply steps_print|]. intros _. apply steps_ret.
Qed.

Lemma steps_extract zip_ref name folder :
  (forall r, W (folder ++ r)) ->
  (forall r, D (removelast (folder ++ r))) ->
  steps R (extract zip_ref name folder).
Proof.
  intros Hw Hd. unfold extract. destruct (getinfo zip_ref name) as [m|];
    [|apply steps_raise].
  apply steps_bind; [apply steps_fs_read|]. intros there.
  apply steps_bind.
  { apply steps_if; [apply steps_ret|by apply steps_makedirs]. }
  intros _. destruct (content m).
  - apply steps_bind; [by apply steps_open_w|]. intros _.
    by apply steps_file_write.
  - apply steps_bind; [apply steps_fs_read|]. intros isdir.
    apply steps_if; [apply steps_ret|by apply steps_mkdir].
  - apply steps_raise.
Qed.

Lemma steps_extract_zip zip folder :
  (forall r, W (folder ++ r)) ->
  (forall r, D (removelast (folder ++ r))) ->
  steps R (extract_zip E zip folder).
Proof.
  intros Hw Hd. unfold extract_zip. apply steps_try_except.
  - apply steps_bind; [apply steps_print|]; intros _.
    apply steps_bind; [apply steps_is_valid_zip|]; intros valid.
    apply steps_bind; [apply steps_if; [apply steps_ret|apply steps_raise]|].
    intros _. apply steps_bind; [apply steps_print|]; intros _.
    apply steps_bind; [apply steps_ZipFile|]; intros zip_ref.
    apply steps_bind; [|intros _; apply steps_print].
    apply steps_for_each. intros ??. by apply steps_extract.
  - intros e. apply steps_if; (apply steps_bind; [apply steps_print|]);
      intros _; apply steps_raise.
Qed.

Lemma steps_move_jar_files source destination :
  D destination -> W destination ->
  (forall j, X (source ++ [j])) -> (forall j, W (destination ++ [j])) ->
  steps R (move_jar_files source destination).
Proof.
  intros Hd Hw Hx Hwj. unfold move_jar_files. apply steps_try_except.
  - apply steps_bind; [apply steps_print|]; intros _.
    apply steps_bind; [apply steps_fs_read|]; intros there.
    apply steps_bind; [apply steps_if; [apply steps_ret|apply steps_raise]|].
    intros _. apply steps_bind; [apply steps_fs_read|]; intros names.
    destruct (filter _ names) as [|j js]; [apply steps_print|].
    apply steps_bind; [by apply steps_makedirs|]; intros _.
    apply steps_bind; [|intros _; apply steps_print].
    apply steps_for_each. intros x _. apply steps_shutil_move; [done..|].
    by rewrite last_snoc_basename.
  - intros e. apply steps_bind; [apply steps_print|].
    intros _; apply steps_raise.
Qed.

Lemma steps_update_modpacks_json file key name loader version :
  W file -> steps R (update_modpacks_json E file key name loader version).
Proof.
  intros Hw. unfold update_modpacks_json. apply steps_try_except.
  - apply steps_bind; [apply steps_print|]; intros _.
    apply steps_bind; [apply steps_fs_read|]; intros there.
    apply steps_bind.
    { apply steps_if; [|apply steps_ret].
      apply steps_bind; [apply steps_fs_read|]. intros f.
      apply steps_try_except.
      - unfold json_load. destruct (json_loads E f);
          [apply steps_ret|apply steps_raise].
      - intros e. apply steps_if; [|apply steps_raise].
        apply steps_bind; [apply steps_print|]. intros _. apply steps_ret. }
    intros loaded. apply steps_bind; [apply steps_py|]; intros packs.
    apply steps_bind; [apply steps_py|]; intros present.
    apply steps_bind.
    { apply steps_if.
      - apply steps_bind; [apply steps_print|]. intros _. apply steps_ret.
      - apply steps_bind; [apply steps_py|]; intros packs'.
        apply steps_bind; [apply steps_py|]; intros doc.
        apply steps_bind; [apply steps_print|]. intros _. apply steps_ret. }
    intros doc. apply steps_bind; [by apply steps_open_w|]; intros _.
    apply steps_bind; [by apply steps_file_write|]; intros _.
    apply steps_print.
  - intros e. apply steps_bind; [apply steps_print|].
    intros _; apply steps_raise.
Qed.


Lemma steps_install_archives t :
  (forall r, W (t ++ r)) ->
  (forall r, D (t ++ r)) ->
  (forall r, r <> [] -> X (t ++ r)) ->
  D (modpack_path E) -> W (modpack_path E) ->
  (forall j, W (modpack_path E ++ [j])) ->
  D (addons_path E) -> W (addons_path E) ->
  (forall j, W (addons_path E ++ [j])) ->
  steps R (install_archives E t).
Proof.
  intros Hw Hd Hx Hd1 Hw1 Hwj1 Hd2 Hw2 Hwj2.
  assert (Hsub : forall x r, (t ++ [x]) ++ r = t ++ (x :: r)).
  { intros x r. by rewrite <- app_assoc. }
  assert (Hup : forall x r, D (removelast ((t ++ [x]) ++ r))).
  { intros x r. rewrite Hsub, removelast_app by done. apply Hd. }
  assert (Hwr : forall x r, W ((t ++ [x]) ++ r)).
  { intros x r. rewrite Hsub. apply Hw. }
  assert (Hxj : forall x j, X ((t ++ [x]) ++ [j])).
  { intros x j. rewrite Hsub. by apply Hx. }
  unfold install_archives.
  apply steps_bind; [by apply steps_download_file|]; intros _.
  apply steps_bind; [apply steps_is_valid_zip|]; intros valid.
  apply steps_bind; [apply steps_if; [apply steps_ret|apply steps_raise]|].
  intros _. apply steps_bind; [by apply steps_makedirs|]; intros _.
  apply steps_bind; [by apply steps_extract_zip|]; intros _.
  apply steps_bind; [by apply steps_move_jar_files|]; intros _.
  apply steps_bind; [by apply steps_download_file|]; intros _.
  apply steps_bind; [apply steps_is_valid_zip|]; intros valid'.
  apply steps_bind; [apply steps_if; [apply steps_ret|apply steps_raise]|].
  intros _. apply steps_bind; [by apply steps_makedirs|]; intros _.
  apply steps_bind; [by apply steps_extract_zip|]; intros _.
  by apply steps_move_jar_files.
Qed.
End Steps.

(** ** The Orchestrator *)


Lemma run_stages_raise l w e w' :
  run_stages l w = (Raise e, w') -> exists k, fails_at l k w e w'.
Proof.
  revert w. induction l as [|s0 l IH]; intros w H; [done|].
  unfold run_stages in H. simpl in H. unfold bind in H.
  destruct (s0 w) as [[[]|e0] w0] eqn:Hs0.
  - destruct (IH _ H) as (k & s & wk & Hk & Hpre & Hs).
    exists (S k), s, wk. split; [done|]. split; [|done].
    unfold run_stages. simpl. unfold bind. by rewrite Hs0.
  - inversion H; subst. exists 0%nat, s0, w. by repeat split.
Qed.


Section Orchestrator.
Variable E : env.

Lemma mkdtemp_ok w t w1 :
  mkdtemp E w = (Ok t, w1) ->
  t = tempdir E ++ [tmp_name E] /\
  isdir_at (fs w) (tempdir E) = true /\
  lookup_path (fs w) t = None /\
  store (fs w) t (Dir ∅) = Ok (fs w1) /\
  trace w1 = trace w ++ [MkDtemp t].
Proof.
  unfold mkdtemp, mkdir, bind, path_isdir, fs_read, fs_call, emit, ret, raise.
  simpl. destruct (isdir_at (fs w) (tempdir E)) eqn:Hd; [|done].
  destruct (exists_at (fs w) (tempdir E ++ [tmp_name E])) eqn:He; [done|].
  destruct (store (fs w) _ (Dir ∅)) as [n1|] eqn:Hs; [|done].
  intros [= <- <-]. simpl. by apply exists_at_false in He.
Qed.







End Orchestrator.

(** ** The reference codec round-trips *)

Module RefCodecFacts.
Import RefCodec.











End RefCodecFacts.

(** * The theorems at concrete inputs *)







(** Two more runs that the amended claim leaves out: a regular file on
    the way to the destination, and a destination inside a directory that
    is itself moved. *)
Example relocator_blocked_raises :
  (move_jar_files ["in"] ["out"; "mods"] demo_blocked).1 =
    Raise NotADirectoryError.
Proof. vm_compute; reflexivity. Qed.

Example relocator_into_itself_raises :
  (move_jar_files ["in"] ["in"; "pack.jar"; "out"] demo_nested).1 =
    Raise ShutilError.
Proof. vm_compute; reflexivity. Qed.


Lemma prerequisite_missing_stops_witness :
  main ref_env empty_disk =
    (Ok tt,
     World (fs empty_disk)
       (trace empty_disk ++ [Printed MsgNotInstalled; Prompted])).
Proof.
  apply (prerequisite_missing_stops ref_env empty_disk).
  vm_compute; reflexivity.
Defined.




Lemma manifest_without_packs_is_fatal_witness :
  let w := with_modpacks [("modpacks.json", File (RefCodec.dumps (JObj [])))] in
  exists e,
    update_modpacks_json ref_env (modpacks_file ref_env)
      modpack_key modpack_name mod_loader version w =
      (Raise e,
       World (fs w)
         (trace w ++ [Printed MsgUpdating; Printed (MsgUpdateUnexpected e)])) /\
    getitem (JObj []) "packs" = Raise e /\
    (e = KeyError \/ e = TypeError).
Proof.
  intros w.
  apply (manifest_without_packs_is_fatal ref_env (modpacks_file ref_env)
           modpack_key modpack_name mod_loader version w
           (RefCodec.dumps (JObj [])) (JObj [])).
  - vm_compute; reflexivity.
  - vm_compute; reflexivity.
  - reflexivity.
Defined.

(** * Two whole runs

    With a server that serves an archive holding [foo.jar], a first run
    on a fresh installation returns normally: the jar is in both
    destinations, the manifest holds the entry, the temporary directory is
    gone. *)
Example first_run_installs :
  first_run.1 = Ok tt /\
  lookup_path (fs first_run.2) (modpack_path happy_env ++ ["foo.jar"]) =
    Some (File "JAR") /\
  lookup_path (fs first_run.2) (addons_path happy_env ++ ["foo.jar"]) =
    Some (File "JAR") /\
  stored_document happy_env (fs first_run.2) (modpacks_file happy_env) =
    Some registered_doc /\
  lookup_path (fs first_run.2) demo_temp = None /\
  last (trace first_run.2) = Some Prompted.
Proof. repeat split; vm_compute; reflexivity. Qed.

(** A second run on what the first one left stops at the first relocation:
    [foo.jar] is already in the destination, [shutil.move] raises, and the
    run ends with the fatal line, the clean-up and an unchanged disk. *)
Example second_run_stops_at_relocation :
  second_run.1 = Ok tt /\
  fs second_run.2 = fs first_run.2 /\
  trace second_run.2 =
    trace first_run.2 ++
    [MkDtemp demo_temp;
     Printed (MsgUsingTemp demo_temp);
     Printed (MsgDownloading modpack_zip_url);
     HttpGet modpack_zip_url;
     OpenW (demo_temp ++ ["modpack.zip"]);
     Printed (MsgDownloadComplete (demo_temp ++ ["modpack.zip"]));
     Printed (MsgValidating (demo_temp ++ ["modpack.zip"]));
     Printed (MsgExtracting (demo_temp ++ ["modpack.zip"])
                (demo_temp ++ ["modpack"]));
     OpenW (demo_temp ++ ["modpack"; "foo.jar"]);
     OpenW (demo_temp ++ ["modpack"; "docs"; "readme.txt"]);
     Printed (MsgExtracted (demo_temp ++ ["modpack"]));
     Printed (MsgSearching (demo_temp ++ ["modpack"]));
     Printed (MsgMoveUnexpected ShutilError);
     Printed (MsgFatal ShutilError);
     RmTree demo_temp;
     Printed (MsgCleanedUp demo_temp);
     Prompted].
Proof. repeat split; vm_compute; reflexivity. Qed.

(** With the only jar in a folder of the archive, neither relocation finds
    a jar, so neither creates a directory: on a fresh installation the
    manifest has no directory to be written in, and the run ends with the
    fatal line and no manifest. *)
Example nested_archive_run_fails_at_manifest :
  nested_run.1 = Ok tt /\
  fs nested_run.2 = fs fresh_install /\
  trace nested_run.2 =
    [MkDtemp demo_temp;
     Printed (MsgUsingTemp demo_temp);
     Printed (MsgDownloading modpack_zip_url);
     HttpGet modpack_zip_url;
     OpenW (demo_temp ++ ["modpack.zip"]);
     Printed (MsgDownloadComplete (demo_temp ++ ["modpack.zip"]));
     Printed (MsgValidating (demo_temp ++ ["modpack.zip"]));
     Printed (MsgExtracting (demo_temp ++ ["modpack.zip"])
                (demo_temp ++ ["modpack"]));
     OpenW (demo_temp ++ ["modpack"; "mods"; "foo.jar"]);
     Printed (MsgExtracted (demo_temp ++ ["modpack"]));
     Printed (MsgSearching (demo_temp ++ ["modpack"]));
     Printed MsgNoJars;
     Printed (MsgDownloading addons_zip_url);
     HttpGet addons_zip_url;
     OpenW (demo_temp ++ ["addons.zip"]);
     Printed (MsgDownloadComplete (demo_temp ++ ["addons.zip"]));
     Printed (MsgValidating (demo_temp ++ ["addons.zip"]));
     Printed (MsgExtracting (demo_temp ++ ["addons.zip"])
                (demo_temp ++ ["addons"]));
     OpenW (demo_temp ++ ["addons"; "mods"; "foo.jar"]);
     Printed (MsgExtracted (demo_temp ++ ["addons"]));
     Printed (MsgSearching (demo_temp ++ ["addons"]));
     Printed MsgNoJars;
     Printed MsgUpdating;
     Printed (MsgAdded modpack_name);
     OpenW (modpacks_file nested_env);
     Printed (MsgUpdateUnexpected FileNotFoundError);
     Printed (MsgFatal FileNotFoundError);
     RmTree demo_temp;
     Printed (MsgCleanedUp demo_temp);
     Prompted].
Proof. repeat split; vm_compute; reflexivity. Qed.

(** * Further properties of the script *)

(** ** The Fetcher on an accepted answer *)

Section Fetcher.
Variable E : env.






End Fetcher.

Section FetcherAlways.
Variable E : env.



End FetcherAlways.

(** ** The Extractor on what is not a ZIP container *)

Section ExtractorRejects.
Variable E : env.


End ExtractorRejects.

(** ** The Relocator: other sources, collisions, a second call *)




Section RelocatorMore.
Implicit Types (source destination : path) (w : world).







(** Property X10: [move_jar_files], whatever happens.  On every world
    and every outcome, a path that is neither at, above or below the
    source nor at, above or below the destination holds after the call
    what it held before. *)
Theorem relocator_stays_inside source destination w q :
  apart source q -> apart destination q ->
  lookup_path (fs (move_jar_files source destination w).2) q =
    lookup_path (fs w) q.
Proof.
  intros Hs Hd.
  apply (steps_move_jar_files (same_at q)) with
    (W := fun p : path => apart p q) (X := fun p : path => apart p q)
    (D := fun p : path => ¬ q `prefix_of` p); try done.
  - unfold same_at. congruence.
  - intros p n v n' [H1 H2] _ Hst. by apply (store_frame _ _ _ _ _ Hst).
  - intros p n n' [H1 H2] Hr. by apply (remove_frame _ _ _ _ Hr).
  - intros p n n' Hp Hm. by apply (makedirs_frame _ _ _ _ Hm).
  - by destruct Hd.
  - intros j. by apply apart_app.
  - intros j. by apply apart_app.
Qed.

End RelocatorMore.

(** ** The Manifest Updater: inserting, odd documents, failures *)

Section ManifestMore.
Variable E : env.
Implicit Types (w : world) (file : path) (key name loader version : string).



(** Property X13: [update_modpacks_json], whatever happens.  A call that
    raises leaves the whole file system as it was, the manifest
    included; and on every outcome nothing apart from the manifest path
    changes. *)
Theorem manifest_update_is_confined file key name loader version w :
  let r := update_modpacks_json E file key name loader version w in
  (forall e, r.1 = Raise e -> r.2.(fs) = fs w) /\
  (forall q, apart file q -> lookup_path (fs r.2) q = lookup_path (fs w) q).
Proof.
  intros r. subst r. split.
  - intros e. rewrite update_exact.
    destruct (loaded_document E (fs w) file); [|done]. cbv zeta.
    destruct (merged_document _ _ _); [|done].
    by destruct (store _ _ _).
  - intros q [H1 H2]. rewrite update_fs.
    destruct (loaded_document E (fs w) file); [|done].
    destruct (merged_document _ _ _); [|done].
    destruct (store _ _ _) eqn:Hs; [|done].
    by apply (store_frame _ _ _ _ _ Hs).
Qed.

End ManifestMore.

(** ** The Orchestrator: success, late failure, confinement *)

Section FileSystemMore.
Implicit Types (n c v : node) (p q t : path).






End FileSystemMore.

Section OrchestratorMore.
Variable E : env.

Lemma main_unfold w :
  main E w =
  if exists_at (fs w) (base_path E) then
    match mkdtemp E w with
    | (Ok t, w1) =>
        (print (MsgUsingTemp t) >>
         try_finally (try_body E t) (cleanup t) >>
         input) w1
    | (Raise e, w1) => (Raise e, w1)
    end
  else (Ok tt, World (fs w) (trace w ++ [Printed MsgNotInstalled; Prompted])).
Proof.
  unfold main. unfold bind at 1. unfold path_exists at 1, fs_read. cbn [fs].
  destruct (exists_at (fs w) (base_path E)).
  - unfold bind at 1. by destruct (mkdtemp E w) as [[t|e] w1].
  - unfold bind, print, input, emit. cbn [fs trace]. by rewrite <- app_assoc.
Qed.

Lemma mkdtemp_raise w e w1 : mkdtemp E w = (Raise e, w1) -> w1 = w.
Proof.
  unfold mkdtemp, mkdir, bind, path_isdir, fs_read, fs_call, emit, ret, raise.
  simpl. destruct (isdir_at (fs w) (tempdir E)); [|by intros [= _ <-]].
  destruct (exists_at (fs w) (tempdir E ++ [tmp_name E])); [by intros [= _ <-]|].
  destruct (store (fs w) _ (Dir ∅)); [done|by intros [= _ <-]].
Qed.





(** Property X16: [main], whatever happens.  On every world and every
    outcome, a path that is apart from the temporary directory of the
    run, from the two destinations and from the manifest holds after
    [main] what it held before. *)
Theorem main_is_confined w q :
  apart (tempdir E ++ [tmp_name E]) q ->
  apart (modpack_path E) q ->
  apart (addons_path E) q ->
  apart (modpacks_file E) q ->
  lookup_path (fs (main E w).2) q = lookup_path (fs w) q.
Proof.
  intros Ht Hm Ha Hf. rewrite main_unfold.
  destruct (exists_at (fs w) (base_path E)); [|done].
  destruct (mkdtemp E w) as [[t|e] w1] eqn:Hmk.
  2:{ by rewrite (mkdtemp_raise _ _ _ Hmk). }
  destruct (mkdtemp_ok _ _ _ _ Hmk) as (-> & _ & _ & Hstore & _).
  set (t := tempdir E ++ [tmp_name E]) in *.
  transitivity (lookup_path (fs w1) q).
  2:{ destruct Ht. by apply (store_frame _ _ _ _ _ Hstore). }
  assert (Hrefl : forall n, same_at q n n) by done.
  assert (Htrans : forall a b c, same_at q a b -> same_at q b c -> same_at q a c).
  { unfold same_at. congruence. }
  set (W := fun p : path => apart p q).
  set (D := fun p : path => ¬ q `prefix_of` p).
  assert (HW : forall p n v n', W p -> isdir_at n p = false ->
                 store n p v = Ok n' -> same_at q n n').
  { intros p n v n' [H1 H2] _ Hs. by apply (store_frame _ _ _ _ _ Hs). }
  assert (HX : forall p n n', W p -> remove n p = Ok n' -> same_at q n n').
  { intros p n n' [H1 H2] Hr. by apply (remove_frame _ _ _ _ Hr). }
  assert (HD : forall p n n', D p -> fs_makedirs n p = Ok n' -> same_at q n n').
  { intros p n n' Hp Hmd. by apply (makedirs_frame _ _ _ _ Hmd). }
  assert (HWD : forall p, W p -> D p) by (by intros p [??]).
  apply steps_bind; [done|by apply steps_print|].
  intros _. apply steps_bind; [done| |intros _; by apply steps_emit].
  apply steps_try_finally; [done| |].
  - unfold try_body. apply steps_try_except; [done| |].
    + apply steps_bind; [done| |].
      * apply (steps_install_archives _ Hrefl Htrans W W D HW HX HD).
        -- intros r. by apply apart_app.
        -- intros r. by apply HWD, apart_app.
        -- intros r _. by apply apart_app.
        -- by apply HWD.
        -- done.
        -- intros j. by apply apart_app.
        -- by apply HWD.
        -- done.
        -- intros j. by apply apart_app.
      * intros _. apply steps_bind; [done| |].
        -- by apply (steps_update_modpacks_json _ Hrefl Htrans W HW).
        -- intros _. by apply steps_print.
    + intros e. by apply steps_print.
  - unfold cleanup. apply steps_bind; [done| |].
    + by apply steps_fs_read.
    + intros there. apply steps_if; [|by apply steps_ret].
      apply steps_bind; [done| |intros _; by apply steps_print].
      by apply (steps_rmtree _ Hrefl Htrans W HX).
Qed.






End OrchestratorMore.

(** ** The Extractor on an archive that unpacks into a tree *)

Section Unpack.
Implicit Types (n : node) (p q t : path) (m : member).













End Unpack.

Section Extractor.
Variable E : env.




End Extractor.

(** ** A run in which everything goes well *)

Section FileSystemFiles.
Implicit Types (n c v : node) (p q t : path).







End FileSystemFiles.

Section StepsOfOneArchive.
Variable R : node -> node -> Prop.
Hypothesis R_refl : forall n, R n n.
Hypothesis R_trans : forall a b c, R a b -> R b c -> R a c.
Variables (W X D : path -> Prop).
Hypothesis W_ok : forall q n v n',
  W q -> isdir_at n q = false -> store n q v = Ok n' -> R n n'.
Hypothesis X_ok : forall q n n', X q -> remove n q = Ok n' -> R n n'.
Hypothesis D_ok : forall q n n', D q -> fs_makedirs n q = Ok n' -> R n n'.
Variable E : env.


End StepsOfOneArchive.


Section OneArchive.
Variable E : env.
Implicit Types (w : world) (t dest zip folder p q : path).







End OneArchive.

Section OneArchiveTheorem.
Variable E : env.


End OneArchiveTheorem.

Section HealthyRun.
Variable E : env.





End HealthyRun.

Section NotAnArchive.
Variable E : env.


End NotAnArchive.

(** * The further properties at concrete inputs *)









Lemma relocator_stays_inside_witness :
  lookup_path (fs (move_jar_files ["in"] ["out"] demo_clash).2) ["home"] =
    lookup_path (fs demo_clash) ["home"].
Proof.
  apply (relocator_stays_inside ["in"] ["out"] demo_clash ["home"]);
    split; intros [k Hk]; discriminate.
Defined.



Lemma manifest_update_is_confined_witness :
  fs (update_modpacks_json ref_env (modpacks_file ref_env)
        modpack_key modpack_name mod_loader version
        (with_manifest list_doc)).2 = fs (with_manifest list_doc).
Proof.
  apply (proj1 (manifest_update_is_confined ref_env (modpacks_file ref_env)
                  modpack_key modpack_name mod_loader version
                  (with_manifest list_doc)) TypeError).
  vm_compute; reflexivity.
Defined.



Lemma main_is_confined_witness :
  lookup_path (fs (main happy_env fresh_install).2) ["Users"; "me"; "AppData"; "Local"] =
    lookup_path (fs fresh_install) ["Users"; "me"; "AppData"; "Local"].
Proof.
  apply (main_is_confined happy_env fresh_install
           ["Users"; "me"; "AppData"; "Local"]);
    split; intros [k Hk]; discriminate.
Defined.











